(** * Maxwell potential operator factories (bempp.api.operators.potential.maxwell)

    A shallow embedding of the two factory functions [electric_field] and
    [magnetic_field], of the Python values they handle, and of the objects
    they construct.  Python objects live in a store and are named by
    references; construction may raise, so every operation is a function
    from the store to a result and a new store.  The near-field part of
    the dielectric example, which prepares the points the factories are
    called on and puts the computed values back on the grid, is embedded
    with arrays as lists. *)

From Stdlib Require Import ZArith.
From stdpp Require Import base option list strings.

Local Open Scope string_scope.
Local Open Scope Z_scope.
Local Open Scope list_scope.

(** ** Errors and results *)

Inductive error : Type :=
  | InvalidConfiguration
  | DimensionMismatch
  | IncompatibleDomain
  | AssemblyFailure
  | NoSuchObject.

Inductive result (A : Type) : Type :=
  | Ok (a : A)
  | Err (e : error).

Arguments Ok {A} a.
Arguments Err {A} e.

(** Errors and results of the array operations of the example script. *)

Inductive np_error : Type := IndexError | ValueError.

Inductive np_result (A : Type) : Type :=
  | Done (a : A)
  | Raised (e : np_error).

Arguments Done {A} a.
Arguments Raised {A} e.

(** ** Precision tags: [None] stands for the backend default. *)

Inductive precision_tag : Type := single | double.

Section Maxwell.

(** Floating-point scalars are never computed with by the factories, only
    taken apart and stored, so their type is a parameter; [fzero] is the
    float [0.0]. *)
Context {F : Type}.
Variable fzero : F.

(** Opaque collaborators: function spaces, device handles, parameter
    objects and assembled kernels. *)
Context {Space Device Params Matrix : Type}.

(** ** Python numeric scalars *)

Inductive pynum : Type :=
  | PyInt (z : Z)
  | PyFloat (x : F)
  | PyComplex (re im : F).

Definition is_raw_complex (v : pynum) : bool :=
  match v with PyComplex _ _ => true | _ => false end.

(** [numpy.real(val)] returns [val.real]. *)
Definition np_real (val : pynum) : pynum :=
  match val with
  | PyInt z => PyInt z
  | PyFloat x => PyFloat x
  | PyComplex re _ => PyFloat re
  end.

(** [numpy.imag(val)] returns [val.imag]. *)
Definition np_imag (val : pynum) : pynum :=
  match val with
  | PyInt _ => PyInt 0
  | PyFloat _ => PyFloat fzero
  | PyComplex _ im => PyFloat im
  end.

(** ** Objects *)

(** Modelled from the spec: the declaration of [OperatorDescriptor] is not
    part of the sources at hand.  Its eight fields are the ones of the data
    model, in the order in which the factories pass them. *)
Record OperatorDescriptor : Type := mkOperatorDescriptor {
  identifier : string;
  options : list pynum;
  kernel_type : string;
  assembly_type : string;
  precision : option precision_tag;
  is_complex : bool;
  singular_part : option string;
  kernel_dimension : Z
}.

(** Evaluation points: an ordered sequence of vectors. *)
Definition Points : Type := list (list F).

(** Lazy assembly: unassembled, assembled (memoised kernel) or faulted
    (memoised error). *)
Inductive assembly_state : Type :=
  | Unassembled
  | Assembled (m : Matrix)
  | Faulted (e : error).

(** Modelled from the spec: the class [PotentialAssembler] is not part of
    the sources at hand.  It binds a space, the points, a descriptor (by
    reference), the device, the backend name and the parameters, and owns
    its cached assembly state. *)
Record PotentialAssembler : Type := mkPotentialAssembler {
  pa_space : Space;
  pa_points : Points;
  pa_operator_descriptor : nat;
  pa_device_interface : option Device;
  pa_assembler_name : string;
  pa_parameters : option Params;
  pa_state : assembly_state
}.

(** Modelled from the spec: the class [PotentialOperator] is not part of
    the sources at hand.  It wraps one assembler (by reference). *)
Record PotentialOperator : Type := mkPotentialOperator {
  po_assembler : nat
}.

(** ** The object store *)

Record world : Type := mkWorld {
  descriptors : list OperatorDescriptor;
  assemblers : list PotentialAssembler;
  operators : list PotentialOperator
}.

Definition empty_world : world := mkWorld [] [] [].

(** ** Store-passing computations that may raise *)

Definition M (A : Type) : Type := world -> result A * world.

Definition ret {A : Type} (a : A) : M A := fun w => (Ok a, w).

Definition raise {A : Type} (e : error) : M A := fun w => (Err e, w).

Definition bind {A B : Type} (c : M A) (k : A -> M B) : M B :=
  fun w =>
    match c w with
    | (Ok a, w') => k a w'
    | (Err e, w') => (Err e, w')
    end.

Notation "x <- c ;; k" := (bind c (fun x => k))
  (at level 100, c at next level, right associativity).

(** ** Constructors of the collaborators *)

(** Backend names registered besides ["dense"]. *)
Variable registered_backends : list string.

Definition recognized_assemblers : list string := "dense" :: registered_backends.

Definition recognized (assembler_name : string) : bool :=
  existsb (String.eqb assembler_name) recognized_assemblers.

(** A well-formed point set is a non-empty sequence of 3-vectors. *)
Definition is_3vector (p : list F) : bool := Nat.eqb (length p) 3.

Definition points_well_formed (points : Points) : bool :=
  match points with
  | [] => false
  | _ :: _ => forallb is_3vector points
  end.

(** Allocation appends to the table of the object's class; the reference
    of the new object is its index. *)
Definition alloc_descriptor (d : OperatorDescriptor) : M nat :=
  fun w =>
    (Ok (length (descriptors w)),
     mkWorld (descriptors w ++ [d]) (assemblers w) (operators w)).

Definition alloc_assembler (a : PotentialAssembler) : M nat :=
  fun w =>
    (Ok (length (assemblers w)),
     mkWorld (descriptors w) (assemblers w ++ [a]) (operators w)).

Definition alloc_operator (o : PotentialOperator) : M nat :=
  fun w =>
    (Ok (length (operators w)),
     mkWorld (descriptors w) (assemblers w) (operators w ++ [o])).

(** [OperatorDescriptor(...)]: stores its eight positional arguments. *)
Definition new_OperatorDescriptor
    (identifier : string) (options : list pynum)
    (kernel_type assembly_type : string)
    (precision : option precision_tag) (is_complex : bool)
    (singular_part : option string) (kernel_dimension : Z) : M nat :=
  alloc_descriptor
    (mkOperatorDescriptor identifier options kernel_type assembly_type
       precision is_complex singular_part kernel_dimension).

(** Modelled from the spec: [PotentialAssembler(...)] is not part of the
    sources at hand.  Construction fails with an invalid-configuration
    error when the backend name is not recognized or when the points are
    empty or malformed; otherwise it binds its arguments, assembly being
    deferred. *)
Definition new_PotentialAssembler
    (space : Space) (points : Points) (operator_descriptor : nat)
    (device_interface : option Device) (assembler_name : string)
    (parameters : option Params) : M nat :=
  if negb (recognized assembler_name) then raise InvalidConfiguration
  else if negb (points_well_formed points) then raise InvalidConfiguration
  else
    alloc_assembler
      (mkPotentialAssembler space points operator_descriptor
         device_interface assembler_name parameters Unassembled).

(** Modelled from the spec: [PotentialOperator(assembler)] is not part of
    the sources at hand.  It wraps the assembler it is given. *)
Definition new_PotentialOperator (assembler : nat) : M nat :=
  alloc_operator (mkPotentialOperator assembler).

(** ** The factories *)

(** Keyword arguments of a call: [None] for an argument the caller left
    out, [Some v] for one the caller supplied (and [Some None] for a
    supplied Python [None]). *)
Record keywords : Type := mkKeywords {
  kw_parameters : option (option Params);
  kw_assembler : option string;
  kw_device_interface : option (option Device);
  kw_precision : option (option precision_tag)
}.

Definition no_keywords : keywords := mkKeywords None None None None.

(** Return a Maxwell electric field potential operator. *)
Definition electric_field
    (space : Space) (points : Points) (wavenumber : pynum)
    (kw : keywords) : M nat :=
  let parameters := default None (kw_parameters kw) in
  let assembler := default "dense" (kw_assembler kw) in
  let device_interface := default None (kw_device_interface kw) in
  let precision := default None (kw_precision kw) in
  operator_descriptor <-
    new_OperatorDescriptor
      "maxwell_electric_field_potential"
      [np_real wavenumber; np_imag wavenumber]
      "helmholtz_single_layer"
      "maxwell_electric_field"
      precision
      true
      None
      3 ;;
  a <- new_PotentialAssembler
         space points operator_descriptor device_interface assembler
         parameters ;;
  new_PotentialOperator a.

(** Return a Maxwell magnetic field potential operator. *)
Definition magnetic_field
    (space : Space) (points : Points) (wavenumber : pynum)
    (kw : keywords) : M nat :=
  let parameters := default None (kw_parameters kw) in
  let assembler := default "dense" (kw_assembler kw) in
  let device_interface := default None (kw_device_interface kw) in
  let precision := default None (kw_precision kw) in
  operator_descriptor <-
    new_OperatorDescriptor
      "maxwell_magnetic_field_potential"
      [np_real wavenumber; np_imag wavenumber]
      "helmholtz_single_layer"
      "maxwell_magnetic_field"
      precision
      true
      None
      3 ;;
  a <- new_PotentialAssembler
         space points operator_descriptor device_interface assembler
         parameters ;;
  new_PotentialOperator a.

(** ** Observing a run *)

Definition outcome {A : Type} (c : M A) (w : world) : result A := fst (c w).

Definition after {A : Type} (c : M A) (w : world) : world := snd (c w).

(** The objects a computation constructs when run from [w]: what it adds
    to each table. *)
Definition built_descriptors {A : Type} (c : M A) (w : world)
  : list OperatorDescriptor :=
  drop (length (descriptors w)) (descriptors (after c w)).

Definition built_assemblers {A : Type} (c : M A) (w : world)
  : list PotentialAssembler :=
  drop (length (assemblers w)) (assemblers (after c w)).

Definition built_operators {A : Type} (c : M A) (w : world)
  : list PotentialOperator :=
  drop (length (operators w)) (operators (after c w)).

(** ** Applying an assembled potential *)

(** Numerics of the collaborators, left abstract: the number of degrees
    of freedom of a space, the (fallible) assembly of the kernel of a
    descriptor, the product of an assembled kernel with a coefficient
    vector, and the comparison of spaces. *)
Variable dof_count : Space -> nat.
Variable assemble :
  Space -> Points -> OperatorDescriptor -> option Device -> string ->
  option Params -> result Matrix.
Variable evaluate : Matrix -> list pynum -> list (list pynum).
Variable space_eqb : Space -> Space -> bool.

Record GridFunction : Type := mkGridFunction {
  gf_space : Space;
  gf_coefficients : list pynum
}.

Definition get_descriptor (r : nat) : M OperatorDescriptor :=
  fun w =>
    match descriptors w !! r with
    | Some d => (Ok d, w)
    | None => (Err NoSuchObject, w)
    end.

Definition get_assembler (r : nat) : M PotentialAssembler :=
  fun w =>
    match assemblers w !! r with
    | Some a => (Ok a, w)
    | None => (Err NoSuchObject, w)
    end.

Definition get_operator (r : nat) : M PotentialOperator :=
  fun w =>
    match operators w !! r with
    | Some o => (Ok o, w)
    | None => (Err NoSuchObject, w)
    end.

Definition with_state (st : assembly_state) (a : PotentialAssembler)
  : PotentialAssembler :=
  mkPotentialAssembler (pa_space a) (pa_points a) (pa_operator_descriptor a)
    (pa_device_interface a) (pa_assembler_name a) (pa_parameters a) st.

(** The only write to an existing object: an assembler's own cache. *)
Definition set_assembly_state (r : nat) (st : assembly_state) : M unit :=
  fun w =>
    (Ok tt,
     mkWorld (descriptors w) (alter (with_state st) r (assemblers w))
       (operators w)).

(** Modelled from the spec: [apply] of a [PotentialAssembler] is not part
    of the sources at hand.  A coefficient vector of the wrong length is a
    dimension mismatch; the first application assembles and memoises the
    kernel, or the error of the assembly, which later applications
    raise again. *)
Definition assembler_apply (r : nat) (coefficients : list pynum)
  : M (list (list pynum)) :=
  a <- get_assembler r ;;
  if negb (Nat.eqb (length coefficients) (dof_count (pa_space a)))
  then raise DimensionMismatch
  else
    match pa_state a with
    | Faulted e => raise e
    | Assembled m => ret (evaluate m coefficients)
    | Unassembled =>
        d <- get_descriptor (pa_operator_descriptor a) ;;
        match
          assemble (pa_space a) (pa_points a) d (pa_device_interface a)
            (pa_assembler_name a) (pa_parameters a)
        with
        | Ok m =>
            _ <- set_assembly_state r (Assembled m) ;;
            ret (evaluate m coefficients)
        | Err e =>
            _ <- set_assembly_state r (Faulted e) ;;
            raise e
        end
    end.

(** Modelled from the spec: the product of a [PotentialOperator] with a
    grid function is not part of the sources at hand.  The grid function
    must live in the operator's domain space. *)
Definition operator_apply (r : nat) (g : GridFunction)
  : M (list (list pynum)) :=
  o <- get_operator r ;;
  a <- get_assembler (po_assembler o) ;;
  if negb (space_eqb (gf_space g) (pa_space a))
  then raise IncompatibleDomain
  else assembler_apply (po_assembler o) (gf_coefficients g).

(** ** The operations of the core *)

Inductive core_op : Type :=
  | CallElectricField (space : Space) (points : Points) (wavenumber : pynum)
      (kw : keywords)
  | CallMagneticField (space : Space) (points : Points) (wavenumber : pynum)
      (kw : keywords)
  | CallOperatorDescriptor (d : OperatorDescriptor)
  | CallPotentialAssembler (space : Space) (points : Points)
      (operator_descriptor : nat) (device_interface : option Device)
      (assembler_name : string) (parameters : option Params)
  | CallPotentialOperator (assembler : nat)
  | CallAssemblerApply (assembler : nat) (coefficients : list pynum)
  | CallOperatorApply (operator : nat) (g : GridFunction).

(** The store after an operation, whether it returned or raised. *)
Definition exec (op : core_op) (w : world) : world :=
  match op with
  | CallElectricField space points wavenumber kw =>
      after (electric_field space points wavenumber kw) w
  | CallMagneticField space points wavenumber kw =>
      after (magnetic_field space points wavenumber kw) w
  | CallOperatorDescriptor d =>
      after
        (new_OperatorDescriptor (identifier d) (options d) (kernel_type d)
           (assembly_type d) (precision d) (is_complex d) (singular_part d)
           (kernel_dimension d)) w
  | CallPotentialAssembler space points operator_descriptor
      device_interface assembler_name parameters =>
      after
        (new_PotentialAssembler space points operator_descriptor
           device_interface assembler_name parameters) w
  | CallPotentialOperator assembler =>
      after (new_PotentialOperator assembler) w
  | CallAssemblerApply assembler coefficients =>
      after (assembler_apply assembler coefficients) w
  | CallOperatorApply operator g =>
      after (operator_apply operator g) w
  end.

Definition exec_all (ops : list core_op) (w : world) : world :=
  fold_left (fun w' op => exec op w') ops w.

(** Forwarding: run from [w], the call [factory space points wavenumber
    kw] constructs its descriptor and then makes one call of the
    constructor of [PotentialAssembler], on the space, the points, the
    device, the backend name and the parameters it was given.  If that call
    raises, the factory raises the same error and no assembler or operator
    exists afterwards; if it returns, exactly one assembler holding those
    very arguments and exactly one operator wrapping it were constructed,
    and the factory returns that operator. *)
Definition forwards_verbatim
    (factory : Space -> Points -> pynum -> keywords -> M nat)
    (space : Space) (points : Points) (wavenumber : pynum) (kw : keywords)
    (w : world) : Prop :=
  let parameters := default None (kw_parameters kw) in
  let assembler := default "dense" (kw_assembler kw) in
  let device_interface := default None (kw_device_interface kw) in
  let call := factory space points wavenumber kw in
  let operator_descriptor := length (descriptors w) in
  let w1 :=
    mkWorld (descriptors w ++ built_descriptors call w) (assemblers w)
      (operators w) in
  call w =
    (a <- new_PotentialAssembler space points operator_descriptor
            device_interface assembler parameters ;;
     new_PotentialOperator a) w1 /\
  match
    outcome
      (new_PotentialAssembler space points operator_descriptor
         device_interface assembler parameters) w1
  with
  | Ok a =>
      built_assemblers call w =
        [mkPotentialAssembler space points operator_descriptor
           device_interface assembler parameters Unassembled] /\
      assemblers (after call w) !! a =
        Some (mkPotentialAssembler space points operator_descriptor
                device_interface assembler parameters Unassembled) /\
      built_operators call w = [mkPotentialOperator a] /\
      outcome call w = Ok (length (operators w))
  | Err e =>
      built_assemblers call w = [] /\
      built_operators call w = [] /\
      outcome call w = Err e
  end.

(** ** The near-field part of the dielectric example

    The example script (examples/maxwell/maxwell_dielectric.py) builds the
    evaluation points handed to the factories and puts the values of the
    potentials back on the grid.  An array of shape (3, n) is the list of
    its n columns; a one-dimensional array is a list; an image of shape
    (r, c) is the list of its r rows. *)

Definition np_bind {A B : Type} (c : np_result A) (k : A -> np_result B)
  : np_result B :=
  match c with
  | Done a => k a
  | Raised e => Raised e
  end.

Notation "x <~ c ;; k" := (np_bind c (fun x => k))
  (at level 100, c at next level, right associativity).

Fixpoint count_true (mask : list bool) : nat :=
  match mask with
  | [] => 0%nat
  | b :: mask' => if b then S (count_true mask') else count_true mask'
  end.

(** The entries of [a] at the positions where [mask] holds, in order. *)
Fixpoint select {A : Type} (a : list A) (mask : list bool) : list A :=
  match a, mask with
  | x :: a', b :: mask' =>
      if b then x :: select a' mask' else select a' mask'
  | _, _ => []
  end.

(** [a[:, mask]] for a boolean [mask]: an index error unless the mask is
    as long as the axis. *)
Definition mask_select {A : Type} (a : list A) (mask : list bool)
  : np_result (list A) :=
  if Nat.eqb (length mask) (length a) then Done (select a mask)
  else Raised IndexError.

(** [a] with the positions where [mask] holds overwritten by [values], in
    order. *)
Fixpoint scatter {A : Type} (a : list A) (mask : list bool) (values : list A)
  : list A :=
  match a, mask with
  | x :: a', true :: mask' =>
      match values with
      | v :: values' => v :: scatter a' mask' values'
      | [] => x :: scatter a' mask' []
      end
  | x :: a', false :: mask' => x :: scatter a' mask' values
  | _, _ => a
  end.

(** [a[:, mask] = values]: the values must have one column for each
    selected position, or one column in all, which is then broadcast. *)
Definition mask_assign {A : Type} (a : list A) (mask : list bool)
    (values : list A) : np_result (list A) :=
  if negb (Nat.eqb (length mask) (length a)) then Raised IndexError
  else if Nat.eqb (length values) (count_true mask)
  then Done (scatter a mask values)
  else
    match values with
    | [v] => Done (scatter a mask (replicate (count_true mask) v))
    | _ => Raised ValueError
    end.

(** [np.sum((points - centre)**2, axis=0) < .4**2] for the two spheres:
    entry j of the mask is computed from column j alone, in floating
    point; the two tests on a column are parameters. *)
Variable inside0 inside1 : list F -> bool.

Definition interior_indices0 (points : Points) : list bool :=
  map inside0 points.

Definition interior_indices1 (points : Points) : list bool :=
  map inside1 points.

(** [~interior_indices0 & ~interior_indices1] *)
Definition exterior_indices (points : Points) : list bool :=
  zip_with (fun b0 b1 => negb b0 && negb b1)
    (interior_indices0 points) (interior_indices1 points).

Definition ext_points (points : Points) : np_result Points :=
  mask_select points (exterior_indices points).

Definition int_points0 (points : Points) : np_result Points :=
  mask_select points (interior_indices0 points).

Definition int_points1 (points : Points) : np_result Points :=
  mask_select points (interior_indices1 points).

(** Columns of field values: their type, the column of NaN, the sum of
    two columns and the incident [plane_wave] at a point are floating-point
    and are parameters.  A cell is [None] while it holds the uninitialised
    memory of [np.empty]. *)
Context {V : Type}.
Variable nan_column : V.
Variable vadd : V -> V -> V.
Variable plane_wave : list F -> V.

Definition np_empty (n : nat) : list (option V) := replicate n None.

(** [scattered_field = np.empty(...); scattered_field[:, :] = np.nan;
    scattered_field[:, exterior_indices] = exterior_values] *)
Definition scattered_field (points : Points) (exterior_values : list V)
  : np_result (list (option V)) :=
  let scattered_field := np_empty (length points) in
  let scattered_field := map (fun _ => Some nan_column) scattered_field in
  mask_assign scattered_field (exterior_indices points)
    (map Some exterior_values).

(** One turn of the loop:
    [total_field[:, ext_ind] = scattered_field[:, ext_ind]
                               + plane_wave(points[:, ext_ind])] *)
Definition add_incident (scattered_field : list (option V)) (points : Points)
    (total_field : np_result (list (option V))) (ext_ind : nat)
  : np_result (list (option V)) :=
  t <~ total_field ;;
  match scattered_field !! ext_ind, points !! ext_ind with
  | Some s, Some p =>
      if Nat.ltb ext_ind (length t)
      then Done (<[ext_ind := option_map (fun v => vadd v (plane_wave p)) s]> t)
      else Raised IndexError
  | _, _ => Raised IndexError
  end.

(** The total field: the scattered field plus the incident wave at the
    exterior points, the interior values inside the spheres. *)
Definition total_field (points : Points)
    (exterior_values interior_values0 interior_values1 : list V)
  : np_result (list (option V)) :=
  scattered <~ scattered_field points exterior_values ;;
  let total_field := np_empty (length points) in
  ext_inds <~ mask_select (seq 0 (length points)) (exterior_indices points) ;;
  total_field <~
    fold_left (add_incident scattered points) ext_inds (Done total_field) ;;
  total_field <~
    mask_assign total_field (interior_indices0 points)
      (map Some interior_values0) ;;
  mask_assign total_field (interior_indices1 points)
    (map Some interior_values1).

(** [np.mgrid[.., .., ..]] over axes with values [xs], [ys] and [zs], each
    of its three arrays flattened by [ravel]. *)
Definition x_ravel (xs ys zs : list F) : list F :=
  flat_map (fun x => flat_map (fun y => map (fun z => x) zs) ys) xs.

Definition y_ravel (xs ys zs : list F) : list F :=
  flat_map (fun x => flat_map (fun y => map (fun z => y) zs) ys) xs.

Definition z_ravel (xs ys zs : list F) : list F :=
  flat_map (fun x => flat_map (fun y => map (fun z => z) zs) ys) xs.

(** [np.vstack] of three one-dimensional arrays: they must be equally
    long; column j of the result holds their entries j. *)
Definition vstack3 (r0 r1 r2 : list F) : np_result Points :=
  if Nat.eqb (length r0) (length r1) && Nat.eqb (length r1) (length r2)
  then Done (zip_with (fun x yz => x :: yz) r0
               (zip_with (fun y z => [y; z]) r1 r2))
  else Raised ValueError.

(** The grid of the example: the third axis has the single value [z0]. *)
Definition grid_points (xs ys : list F) (z0 : F) : np_result Points :=
  vstack3 (x_ravel xs ys [z0]) (y_ravel xs ys [z0]) (z_ravel xs ys [z0]).

Fixpoint chunks {A : Type} (rows cols : nat) (flat : list A)
  : list (list A) :=
  match rows with
  | O => []
  | S rows' => take cols flat :: chunks rows' cols (drop cols flat)
  end.

(** [flat.reshape(rows, cols)] *)
Definition reshape {A : Type} (flat : list A) (rows cols : nat)
  : np_result (list (list A)) :=
  if Nat.eqb (length flat) (rows * cols) then Done (chunks rows cols flat)
  else Raised ValueError.

(** [m.T] for an image [m] with [cols] columns. *)
Fixpoint transpose {A : Type} (cols : nat) (m : list (list A))
  : list (list A) :=
  match m with
  | [] => replicate cols []
  | row :: m' => zip_with cons row (transpose cols m')
  end.

(** [squared.reshape(nx, ny).T] *)
Definition image {A : Type} (squared : list A) (nx ny : nat)
  : np_result (list (list A)) :=
  m <~ reshape squared nx ny ;;
  Done (transpose ny m).

(** * Properties *)

(** ** What a run of a factory does to the store *)

Lemma recognized_spec (assembler_name : string) :
  recognized assembler_name = true <-> In assembler_name recognized_assemblers.
Proof.
  unfold recognized. rewrite existsb_exists. split.
  - intros [x [Hin Heq]]. apply String.eqb_eq in Heq. now subst.
  - intros Hin. exists assembler_name. split; [assumption|].
    apply String.eqb_refl.
Qed.

Lemma points_well_formed_spec (points : Points) :
  points_well_formed points = true <->
  points <> [] /\ Forall (fun p => length p = 3%nat) points.
Proof.
  unfold points_well_formed. destruct points as [|p ps].
  - split; [discriminate | intros [H _]; now contradiction H].
  - rewrite forallb_forall, Forall_forall. split.
    + intros H. split; [discriminate|].
      intros x Hx. apply Nat.eqb_eq. apply H. now apply list_elem_of_In.
    + intros [_ H] x Hx. apply Nat.eqb_eq. apply H. now apply list_elem_of_In.
Qed.

Lemma electric_field_run space points wavenumber kw w :
  electric_field space points wavenumber kw w =
  let d :=
    mkOperatorDescriptor "maxwell_electric_field_potential"
      [np_real wavenumber; np_imag wavenumber] "helmholtz_single_layer"
      "maxwell_electric_field" (default None (kw_precision kw)) true None 3 in
  let a :=
    mkPotentialAssembler space points (length (descriptors w))
      (default None (kw_device_interface kw))
      (default "dense" (kw_assembler kw))
      (default None (kw_parameters kw)) Unassembled in
  if recognized (default "dense" (kw_assembler kw))
     && points_well_formed points
  then (Ok (length (operators w)),
        mkWorld (descriptors w ++ [d]) (assemblers w ++ [a])
          (operators w ++ [mkPotentialOperator (length (assemblers w))]))
  else (Err InvalidConfiguration,
        mkWorld (descriptors w ++ [d]) (assemblers w) (operators w)).
Proof.
  unfold electric_field, bind, new_OperatorDescriptor, new_PotentialAssembler,
    new_PotentialOperator, alloc_descriptor, alloc_assembler, alloc_operator,
    raise.
  cbn zeta.
  destruct (recognized _); [destruct (points_well_formed _)|]; reflexivity.
Qed.

Lemma magnetic_field_run space points wavenumber kw w :
  magnetic_field space points wavenumber kw w =
  let d :=
    mkOperatorDescriptor "maxwell_magnetic_field_potential"
      [np_real wavenumber; np_imag wavenumber] "helmholtz_single_layer"
      "maxwell_magnetic_field" (default None (kw_precision kw)) true None 3 in
  let a :=
    mkPotentialAssembler space points (length (descriptors w))
      (default None (kw_device_interface kw))
      (default "dense" (kw_assembler kw))
      (default None (kw_parameters kw)) Unassembled in
  if recognized (default "dense" (kw_assembler kw))
     && points_well_formed points
  then (Ok (length (operators w)),
        mkWorld (descriptors w ++ [d]) (assemblers w ++ [a])
          (operators w ++ [mkPotentialOperator (length (assemblers w))]))
  else (Err InvalidConfiguration,
        mkWorld (descriptors w ++ [d]) (assemblers w) (operators w)).
Proof.
  unfold magnetic_field, bind, new_OperatorDescriptor, new_PotentialAssembler,
    new_PotentialOperator, alloc_descriptor, alloc_assembler, alloc_operator,
    raise.
  cbn zeta.
  destruct (recognized _); [destruct (points_well_formed _)|]; reflexivity.
Qed.

(** The one descriptor each factory constructs, whether or not the rest of
    the call succeeds. *)
Lemma electric_field_built_descriptors space points wavenumber kw w :
  built_descriptors (electric_field space points wavenumber kw) w =
  [mkOperatorDescriptor "maxwell_electric_field_potential"
     [np_real wavenumber; np_imag wavenumber] "helmholtz_single_layer"
     "maxwell_electric_field" (default None (kw_precision kw)) true None 3].
Proof.
  unfold built_descriptors, after. rewrite electric_field_run. cbn zeta.
  destruct (_ && _); cbn [snd descriptors]; apply drop_app_length.
Qed.

Lemma magnetic_field_built_descriptors space points wavenumber kw w :
  built_descriptors (magnetic_field space points wavenumber kw) w =
  [mkOperatorDescriptor "maxwell_magnetic_field_potential"
     [np_real wavenumber; np_imag wavenumber] "helmholtz_single_layer"
     "maxwell_magnetic_field" (default None (kw_precision kw)) true None 3].
Proof.
  unfold built_descriptors, after. rewrite magnetic_field_run. cbn zeta.
  destruct (_ && _); cbn [snd descriptors]; apply drop_app_length.
Qed.

Ltac built_descriptor :=
  rewrite ?electric_field_built_descriptors,
    ?magnetic_field_built_descriptors; cbn [map fmap list_fmap options
    kernel_type assembly_type kernel_dimension is_complex singular_part
    identifier precision].

(** ** Options of the descriptor *)

(** C1: for every wavenumber, each factory constructs exactly one
    descriptor, whose options are the two-element list of the real part
    and the imaginary part of the wavenumber, in that order; for a complex
    wavenumber [re + im j] these are the floats [re] and [im]; neither
    entry is ever a raw complex number. *)
Theorem factory_options_real_imag space points wavenumber re im kw w :
  map options (built_descriptors (electric_field space points wavenumber kw) w)
    = [[np_real wavenumber; np_imag wavenumber]] /\
  map options (built_descriptors (magnetic_field space points wavenumber kw) w)
    = [[np_real wavenumber; np_imag wavenumber]] /\
  map options
    (built_descriptors (electric_field space points (PyComplex re im) kw) w)
    = [[PyFloat re; PyFloat im]] /\
  map options
    (built_descriptors (magnetic_field space points (PyComplex re im) kw) w)
    = [[PyFloat re; PyFloat im]] /\
  is_raw_complex (np_real wavenumber) = false /\
  is_raw_complex (np_imag wavenumber) = false.
Proof.
  built_descriptor. repeat split; now destruct wavenumber.
Qed.

(** ** Tags and fixed fields of the descriptor *)

(** C3: whatever the arguments of the two calls, the descriptor built by
    [electric_field] and the one built by [magnetic_field] carry the same
    kernel-type tag, ["helmholtz_single_layer"]. *)
Theorem factory_kernel_type_shared
    space points wavenumber kw w space' points' wavenumber' kw' w' :
  map kernel_type
    (built_descriptors (electric_field space points wavenumber kw) w)
    = ["helmholtz_single_layer"] /\
  map kernel_type
    (built_descriptors (magnetic_field space' points' wavenumber' kw') w')
    = ["helmholtz_single_layer"] /\
  map kernel_type
    (built_descriptors (electric_field space points wavenumber kw) w)
    = map kernel_type
        (built_descriptors (magnetic_field space' points' wavenumber' kw') w').
Proof. built_descriptor. repeat split. Qed.

(** C4: whatever the arguments of the two calls, the descriptor built by
    [electric_field] has assembly type ["maxwell_electric_field"], the one
    built by [magnetic_field] has ["maxwell_magnetic_field"], and the two
    tags differ. *)
Theorem factory_assembly_type_distinct
    space points wavenumber kw w space' points' wavenumber' kw' w' :
  map assembly_type
    (built_descriptors (electric_field space points wavenumber kw) w)
    = ["maxwell_electric_field"] /\
  map assembly_type
    (built_descriptors (magnetic_field space' points' wavenumber' kw') w')
    = ["maxwell_magnetic_field"] /\
  map assembly_type
    (built_descriptors (electric_field space points wavenumber kw) w)
    <> map assembly_type
         (built_descriptors (magnetic_field space' points' wavenumber' kw') w').
Proof. built_descriptor. repeat split. discriminate. Qed.

(** C5: the descriptor built by either factory has kernel dimension 3, is
    flagged complex-valued and has no singular part, for every wavenumber,
    space, point set and keyword arguments. *)
Theorem factory_fixed_fields space points wavenumber kw w :
  map (fun d => (kernel_dimension d, is_complex d, singular_part d))
    (built_descriptors (electric_field space points wavenumber kw) w)
    = [(3, true, None)] /\
  map (fun d => (kernel_dimension d, is_complex d, singular_part d))
    (built_descriptors (magnetic_field space points wavenumber kw) w)
    = [(3, true, None)].
Proof. built_descriptor. split; reflexivity. Qed.

(** ** Errors of a call *)

Ltac run_factory :=
  unfold outcome, built_assemblers, built_operators, after;
  rewrite ?electric_field_run, ?magnetic_field_run; cbn zeta.

(** C2: each factory raises an invalid-configuration error, and constructs
    no operator, when the backend name is not a recognized one or when the
    points are empty or are not all 3-vectors; with a recognized backend
    name and a non-empty sequence of 3-vectors it returns the operator it
    constructed. *)
Theorem factory_invalid_configuration space points wavenumber kw w :
  (~ In (default "dense" (kw_assembler kw)) recognized_assemblers \/
   points = [] \/
   ~ Forall (fun p => length p = 3%nat) points ->
   outcome (electric_field space points wavenumber kw) w
     = Err InvalidConfiguration /\
   built_operators (electric_field space points wavenumber kw) w = [] /\
   outcome (magnetic_field space points wavenumber kw) w
     = Err InvalidConfiguration /\
   built_operators (magnetic_field space points wavenumber kw) w = []) /\
  (In (default "dense" (kw_assembler kw)) recognized_assemblers ->
   points <> [] ->
   Forall (fun p => length p = 3%nat) points ->
   outcome (electric_field space points wavenumber kw) w
     = Ok (length (operators w)) /\
   built_operators (electric_field space points wavenumber kw) w
     = [mkPotentialOperator (length (assemblers w))] /\
   outcome (magnetic_field space points wavenumber kw) w
     = Ok (length (operators w)) /\
   built_operators (magnetic_field space points wavenumber kw) w
     = [mkPotentialOperator (length (assemblers w))]).
Proof.
  split.
  - intros Hbad.
    assert (Hc : recognized (default "dense" (kw_assembler kw))
                 && points_well_formed points = false).
    { apply andb_false_iff.
      destruct Hbad as [Hasm | [Hempty | Hdim]].
      - left. apply not_true_is_false. now rewrite recognized_spec.
      - right. apply not_true_is_false. rewrite points_well_formed_spec.
        now intros [Hne _].
      - right. apply not_true_is_false. rewrite points_well_formed_spec.
        now intros [_ Hall]. }
    run_factory. rewrite Hc. cbn [fst snd operators].
    rewrite drop_all. repeat split.
  - intros Hasm Hne Hall.
    assert (Hc : recognized (default "dense" (kw_assembler kw))
                 && points_well_formed points = true).
    { apply andb_true_iff. split.
      - now apply recognized_spec.
      - now apply points_well_formed_spec. }
    run_factory. rewrite Hc. cbn [fst snd operators].
    rewrite drop_app_length. repeat split.
Qed.

(** ** Purity and determinism of descriptor construction *)

Lemma electric_field_keeps space points wavenumber kw w :
  take (length (descriptors w))
    (descriptors (after (electric_field space points wavenumber kw) w))
    = descriptors w /\
  take (length (assemblers w))
    (assemblers (after (electric_field space points wavenumber kw) w))
    = assemblers w /\
  take (length (operators w))
    (operators (after (electric_field space points wavenumber kw) w))
    = operators w.
Proof.
  run_factory.
  destruct (_ && _); cbn [snd descriptors assemblers operators];
    rewrite ?take_app_length, ?firstn_all; repeat split.
Qed.

Lemma magnetic_field_keeps space points wavenumber kw w :
  take (length (descriptors w))
    (descriptors (after (magnetic_field space points wavenumber kw) w))
    = descriptors w /\
  take (length (assemblers w))
    (assemblers (after (magnetic_field space points wavenumber kw) w))
    = assemblers w /\
  take (length (operators w))
    (operators (after (magnetic_field space points wavenumber kw) w))
    = operators w.
Proof.
  run_factory.
  destruct (_ && _); cbn [snd descriptors assemblers operators];
    rewrite ?take_app_length, ?firstn_all; repeat split.
Qed.

(** C6: constructing a descriptor never raises and has no effect on the
    store other than the new descriptor itself: every assembler, operator
    and earlier descriptor is left as it was, also by the factory as a
    whole; and it is deterministic: the same arguments give equal
    descriptors from any two stores, for the constructor and for each
    factory. *)
Theorem descriptor_construction_pure_deterministic
    ident opts ktype atype prec cplx sing kdim
    space points wavenumber kw w w' :
  new_OperatorDescriptor ident opts ktype atype prec cplx sing kdim w =
    (Ok (length (descriptors w)),
     mkWorld
       (descriptors w ++
        [mkOperatorDescriptor ident opts ktype atype prec cplx sing kdim])
       (assemblers w) (operators w)) /\
  built_descriptors
    (new_OperatorDescriptor ident opts ktype atype prec cplx sing kdim) w
    = built_descriptors
        (new_OperatorDescriptor ident opts ktype atype prec cplx sing kdim) w' /\
  take (length (descriptors w))
    (descriptors (after (electric_field space points wavenumber kw) w))
    = descriptors w /\
  take (length (descriptors w))
    (descriptors (after (magnetic_field space points wavenumber kw) w))
    = descriptors w /\
  built_descriptors (electric_field space points wavenumber kw) w
    = built_descriptors (electric_field space points wavenumber kw) w' /\
  built_descriptors (magnetic_field space points wavenumber kw) w
    = built_descriptors (magnetic_field space points wavenumber kw) w'.
Proof.
  split; [reflexivity|]. split.
  { unfold built_descriptors, after, new_OperatorDescriptor, alloc_descriptor.
    cbn [snd descriptors]. now rewrite !drop_app_length. }
  split; [apply electric_field_keeps|].
  split; [apply magnetic_field_keeps|].
  now built_descriptor.
Qed.

(** C8: the descriptor a factory builds is a function of the wavenumber
    and the precision alone: two calls that agree on these two build equal
    descriptors, whatever their spaces, points, parameters, backend names
    and devices, and whatever the stores they run from. *)
Theorem factory_descriptor_depends_on_wavenumber_precision
    wavenumber space points kw w space' points' kw' w' :
  default None (kw_precision kw) = default None (kw_precision kw') ->
  built_descriptors (electric_field space points wavenumber kw) w
    = built_descriptors (electric_field space' points' wavenumber kw') w' /\
  built_descriptors (magnetic_field space points wavenumber kw) w
    = built_descriptors (magnetic_field space' points' wavenumber kw') w'.
Proof. intros Hprec. built_descriptor. now rewrite Hprec. Qed.

(** ** Forwarding and defaults *)

(** C9: each factory passes its space, points, device, backend name and
    parameters unchanged to one call of the constructor of
    [PotentialAssembler], adds no check of its own, and returns the one
    [PotentialOperator] wrapping the assembler that call constructed. *)
Theorem factory_forwards_arguments space points wavenumber kw w :
  forwards_verbatim electric_field space points wavenumber kw w /\
  forwards_verbatim magnetic_field space points wavenumber kw w.
Proof.
  unfold forwards_verbatim. cbn zeta.
  rewrite electric_field_built_descriptors, magnetic_field_built_descriptors.
  run_factory.
  unfold bind, new_PotentialAssembler, new_PotentialOperator, alloc_assembler,
    alloc_operator, raise.
  destruct (recognized _); [destruct (points_well_formed _)|];
    cbn [negb andb fst snd descriptors assemblers operators];
    rewrite ?drop_app_length, ?drop_all, ?list_lookup_middle by reflexivity;
    repeat split.
Qed.

(** C10: a call with the three required arguments alone is the call with
    [parameters=None], [assembler="dense"], [device_interface=None] and
    [precision=None]: the descriptor gets no precision, and the assembler
    constructed for well-formed points is the dense one, with no device and
    no parameters. *)
Theorem factory_keyword_defaults space points wavenumber w :
  let explicit :=
    mkKeywords (Some None) (Some "dense") (Some None) (Some None) in
  electric_field space points wavenumber no_keywords
    = electric_field space points wavenumber explicit /\
  magnetic_field space points wavenumber no_keywords
    = magnetic_field space points wavenumber explicit /\
  map precision
    (built_descriptors (electric_field space points wavenumber no_keywords) w)
    = [None] /\
  map precision
    (built_descriptors (magnetic_field space points wavenumber no_keywords) w)
    = [None] /\
  built_assemblers (electric_field space points wavenumber no_keywords) w
    = (if points_well_formed points
       then [mkPotentialAssembler space points (length (descriptors w))
               None "dense" None Unassembled]
       else []) /\
  built_assemblers (magnetic_field space points wavenumber no_keywords) w
    = (if points_well_formed points
       then [mkPotentialAssembler space points (length (descriptors w))
               None "dense" None Unassembled]
       else []).
Proof.
  cbn zeta. split; [reflexivity|]. split; [reflexivity|].
  built_descriptor. split; [reflexivity|]. split; [reflexivity|].
  run_factory. cbn [no_keywords kw_assembler kw_parameters kw_device_interface
    default].
  assert (Hd : recognized "dense" = true).
  { apply recognized_spec. now left. }
  rewrite Hd. cbn [andb].
  destruct (points_well_formed points); cbn [snd assemblers];
    rewrite ?drop_app_length, ?drop_all; split; reflexivity.
Qed.

(** ** Immutability of constructed descriptors *)

Lemma assembler_apply_descriptors r coefficients w :
  descriptors (after (assembler_apply r coefficients) w) = descriptors w.
Proof.
  unfold after, assembler_apply, bind, get_assembler, get_descriptor,
    set_assembly_state, raise, ret.
  destruct (assemblers w !! r) as [a|]; [|reflexivity].
  destruct (negb _); [reflexivity|].
  destruct (pa_state a); try reflexivity.
  destruct (descriptors w !! _) as [d|]; [|reflexivity].
  destruct (assemble _ _ _ _ _ _); reflexivity.
Qed.

Lemma operator_apply_descriptors r g w :
  descriptors (after (operator_apply r g) w) = descriptors w.
Proof.
  unfold operator_apply, bind, get_operator, get_assembler, raise.
  unfold after at 1.
  destruct (operators w !! r) as [o|]; [|reflexivity].
  destruct (assemblers w !! _) as [a|]; [|reflexivity].
  destruct (negb _); [reflexivity|].
  apply assembler_apply_descriptors.
Qed.

(** No operation of the core removes or rewrites a descriptor: the table
    of descriptors only grows at its end. *)
Lemma exec_descriptors op w :
  exists k, descriptors (exec op w) = descriptors w ++ k.
Proof.
  destruct op; cbn [exec].
  - unfold after. rewrite electric_field_run. cbn zeta.
    destruct (_ && _); eexists; reflexivity.
  - unfold after. rewrite magnetic_field_run. cbn zeta.
    destruct (_ && _); eexists; reflexivity.
  - eexists; reflexivity.
  - exists []. rewrite app_nil_r.
    unfold after, new_PotentialAssembler, alloc_assembler, raise.
    destruct (negb _); [reflexivity|]. destruct (negb _); reflexivity.
  - exists []. now rewrite app_nil_r.
  - exists []. rewrite app_nil_r. apply assembler_apply_descriptors.
  - exists []. rewrite app_nil_r. apply operator_apply_descriptors.
Qed.

Lemma exec_all_descriptors ops w :
  exists k, descriptors (exec_all ops w) = descriptors w ++ k.
Proof.
  revert w. induction ops as [|op ops IH]; intros w.
  - exists []. now rewrite app_nil_r.
  - cbn [exec_all fold_left]. destruct (IH (exec op w)) as [k2 Hk2].
    destruct (exec_descriptors op w) as [k1 Hk1].
    exists (k1 ++ k2). unfold exec_all in Hk2.
    now rewrite Hk2, Hk1, <- app_assoc.
Qed.

Lemma exec_all_lookup ops w r d :
  descriptors w !! r = Some d ->
  descriptors (exec_all ops w) !! r = Some d.
Proof.
  intros Hr. destruct (exec_all_descriptors ops w) as [k Hk].
  rewrite Hk. rewrite lookup_app_l; [assumption|].
  now apply lookup_lt_Some in Hr.
Qed.

(** C7: the descriptor a factory constructs keeps all eight fields,
    whatever operations of the core follow the call (further factory
    calls, construction of descriptors, of assemblers sharing this or any
    descriptor, of operators, and applications that assemble and cache):
    looked up by its reference after any sequence of operations, it is
    the descriptor as constructed. *)
Theorem factory_descriptor_immutable space points wavenumber kw w ops :
  descriptors
    (exec_all ops (after (electric_field space points wavenumber kw) w))
    !! length (descriptors w)
  = Some
      (mkOperatorDescriptor "maxwell_electric_field_potential"
         [np_real wavenumber; np_imag wavenumber] "helmholtz_single_layer"
         "maxwell_electric_field" (default None (kw_precision kw)) true
         None 3) /\
  descriptors
    (exec_all ops (after (magnetic_field space points wavenumber kw) w))
    !! length (descriptors w)
  = Some
      (mkOperatorDescriptor "maxwell_magnetic_field_potential"
         [np_real wavenumber; np_imag wavenumber] "helmholtz_single_layer"
         "maxwell_magnetic_field" (default None (kw_precision kw)) true
         None 3).
Proof.
  split; apply exec_all_lookup; unfold after;
    rewrite ?electric_field_run, ?magnetic_field_run; cbn zeta;
    destruct (_ && _); cbn [snd descriptors];
    now apply list_lookup_middle.
Qed.

(** * Further properties of the factories *)



(** X3: the descriptor records the real part, the imaginary part and the
    precision, and nothing else of the call: two calls of a factory build
    equal descriptors exactly when they agree on these three.  So a real
    wavenumber [x] and the complex wavenumber [x + 0j] give the same
    descriptor, with options [[x; 0.0]]. *)
Theorem descriptor_records_parts_and_precision
    space points wavenumber kw w space' points' wavenumber' kw' w' x :
  (built_descriptors (electric_field space points wavenumber kw) w
     = built_descriptors (electric_field space' points' wavenumber' kw') w'
   <-> np_real wavenumber = np_real wavenumber' /\
       np_imag wavenumber = np_imag wavenumber' /\
       default None (kw_precision kw) = default None (kw_precision kw')) /\
  (built_descriptors (magnetic_field space points wavenumber kw) w
     = built_descriptors (magnetic_field space' points' wavenumber' kw') w'
   <-> np_real wavenumber = np_real wavenumber' /\
       np_imag wavenumber = np_imag wavenumber' /\
       default None (kw_precision kw) = default None (kw_precision kw')) /\
  built_descriptors (electric_field space points (PyFloat x) kw) w
    = built_descriptors
        (electric_field space points (PyComplex x fzero) kw) w /\
  map options (built_descriptors (electric_field space points (PyFloat x) kw) w)
    = [[PyFloat x; PyFloat fzero]].
Proof.
  built_descriptor.
  split; [|split; [|split; reflexivity]].
  - split.
    + intros Heq. injection Heq as Hre Him Hprec. now repeat split.
    + intros (-> & -> & ->). reflexivity.
  - split.
    + intros Heq. injection Heq as Hre Him Hprec. now repeat split.
    + intros (-> & -> & ->). reflexivity.
Qed.

(** X4: the factories do not cache.  When a call returns, the same call
    made again returns the next operator, wrapping a new assembler on a
    new descriptor; the two descriptors are equal in all their fields. *)
Theorem factory_calls_build_fresh_objects space points wavenumber kw w r :
  outcome (electric_field space points wavenumber kw) w = Ok r ->
  let call := electric_field space points wavenumber kw in
  let w1 := after call w in
  outcome call w1 = Ok (S r) /\
  map po_assembler (built_operators call w) = [length (assemblers w)] /\
  map po_assembler (built_operators call w1) = [S (length (assemblers w))] /\
  map pa_operator_descriptor (built_assemblers call w)
    = [length (descriptors w)] /\
  map pa_operator_descriptor (built_assemblers call w1)
    = [S (length (descriptors w))] /\
  built_descriptors call w1 = built_descriptors call w.
Proof.
  intros Hok. cbn zeta. built_descriptor.
  revert Hok. run_factory.
  destruct (_ && _) eqn:Hc; cbn [fst snd]; [|discriminate].
  intros [= <-].
  cbn [fst snd descriptors assemblers operators].
  rewrite !drop_app_length, !length_app. cbn [length map po_assembler
    pa_operator_descriptor].
  rewrite !Nat.add_1_r. repeat split.
Qed.

(** X5: a call of a factory leaves every assembler and every operator
    that existed before as it was; in particular it triggers no assembly
    and clears no cache. *)
Theorem factory_leaves_objects_untouched
    space points wavenumber kw w r a r' o :
  assemblers w !! r = Some a ->
  operators w !! r' = Some o ->
  assemblers (after (electric_field space points wavenumber kw) w) !! r
    = Some a /\
  operators (after (electric_field space points wavenumber kw) w) !! r'
    = Some o /\
  assemblers (after (magnetic_field space points wavenumber kw) w) !! r
    = Some a /\
  operators (after (magnetic_field space points wavenumber kw) w) !! r'
    = Some o.
Proof.
  intros Ha Ho.
  pose proof (lookup_lt_Some _ _ _ Ha) as Hla.
  pose proof (lookup_lt_Some _ _ _ Ho) as Hlo.
  run_factory.
  destruct (_ && _); cbn [snd assemblers operators];
    rewrite ?lookup_app_l by assumption; repeat split; assumption.
Qed.

(** * The example script: masks, fields and the grid *)

Local Open Scope nat_scope.

(** ** Selection and assignment by a boolean mask *)

Lemma select_map_filter {A : Type} (f : A -> bool) (a : list A) :
  select a (map f a) = List.filter f a.
Proof.
  induction a as [|x a IH]; [reflexivity|].
  cbn. destruct (f x); now rewrite IH.
Qed.

Lemma select_zip_with {A B C : Type} (f : A -> B -> C) (a : list A)
    (b : list B) mask :
  select (zip_with f a b) mask = zip_with f (select a mask) (select b mask).
Proof.
  revert b mask. induction a as [|x a IH]; intros [|y b] [|m mask];
    try reflexivity.
  - cbn. destruct m; [reflexivity|]. now destruct (select a mask).
  - cbn. destruct m; cbn; now rewrite IH.
Qed.

Lemma select_pointwise {A : Type} (a b : list A) mask :
  length a = length mask -> length b = length mask ->
  (forall j, mask !! j = Some true -> a !! j = b !! j) ->
  select a mask = select b mask.
Proof.
  revert a b. induction mask as [|m mask IH]; intros [|x a] [|y b] Ha Hb H;
    try discriminate; [reflexivity|].
  injection Ha as Ha. injection Hb as Hb. cbn.
  assert (Hrest : select a mask = select b mask).
  { apply IH; [assumption..|]. intros j Hj. apply (H (S j) Hj). }
  destruct m; [|assumption].
  specialize (H 0 eq_refl). cbn in H. injection H as ->. now rewrite Hrest.
Qed.

Lemma scatter_length {A : Type} (a : list A) mask values :
  length (scatter a mask values) = length a.
Proof.
  revert mask values. induction a as [|x a IH]; intros [|m mask] values;
    try reflexivity.
  cbn. destruct m; [destruct values|]; cbn; now rewrite IH.
Qed.

(** The cell at position j after an assignment through a mask: the value
    of its rank among the selected positions, or the old cell. *)
Lemma scatter_lookup {A : Type} (a : list A) mask values j :
  length mask = length a -> length values = count_true mask ->
  scatter a mask values !! j =
  match mask !! j with
  | Some true => values !! count_true (take j mask)
  | _ => a !! j
  end.
Proof.
  revert mask values j. induction a as [|x a IH]; intros [|m mask] values j;
    try discriminate.
  - intros _ _. now destruct j.
  - intros Hlen Hv. injection Hlen as Hlen. cbn in Hv.
    destruct m.
    + destruct values as [|v values]; [discriminate|].
      injection Hv as Hv. cbn [scatter].
      destruct j as [|j]; [reflexivity|].
      cbn. now rewrite IH.
    + cbn [scatter]. destruct j as [|j]; [reflexivity|].
      cbn. now rewrite IH.
Qed.

Lemma select_scatter {A : Type} (a : list A) mask values :
  length mask = length a -> length values = count_true mask ->
  select (scatter a mask values) mask = values.
Proof.
  revert mask values. induction a as [|x a IH]; intros [|m mask] values;
    try discriminate.
  - intros _ Hv. now destruct values.
  - intros Hlen Hv. injection Hlen as Hlen. cbn in Hv. destruct m.
    + destruct values as [|v values]; [discriminate|].
      injection Hv as Hv. cbn. now rewrite IH.
    + cbn. now apply IH.
Qed.

Lemma select_scatter_disjoint {A : Type} (a : list A) mask mask' values :
  length mask = length a -> length mask' = length a ->
  (forall j, mask !! j = Some true -> mask' !! j = Some true -> False) ->
  select (scatter a mask values) mask' = select a mask'.
Proof.
  revert mask mask' values.
  induction a as [|x a IH]; intros [|m mask] [|m' mask'] values;
    try discriminate; try reflexivity.
  intros Hlen Hlen' Hdis. injection Hlen as Hlen. injection Hlen' as Hlen'.
  assert (Hrest : forall vs,
            select (scatter a mask vs) mask' = select a mask').
  { intros vs. apply IH; [assumption..|].
    intros j Hj Hj'. apply (Hdis (S j) Hj Hj'). }
  destruct m.
  - destruct m'; [exfalso; apply (Hdis 0); reflexivity|].
    destruct values; cbn; apply Hrest.
  - cbn. now rewrite Hrest.
Qed.

Lemma mask_assign_exact {A : Type} (a : list A) mask values :
  length mask = length a -> length values = count_true mask ->
  mask_assign a mask values = Done (scatter a mask values).
Proof.
  intros Hlen Hv. unfold mask_assign.
  rewrite Hlen, Nat.eqb_refl. cbn [negb].
  now rewrite Hv, Nat.eqb_refl.
Qed.

(** ** The three point sets *)

Lemma exterior_indices_map points :
  exterior_indices points
  = map (fun p => negb (inside0 p) && negb (inside1 p)) points.
Proof.
  unfold exterior_indices, interior_indices0, interior_indices1.
  induction points as [|p points IH]; [reflexivity|].
  cbn. now rewrite IH.
Qed.

Lemma exterior_indices_length points :
  length (exterior_indices points) = length points.
Proof. rewrite exterior_indices_map. apply length_map. Qed.

Lemma exterior_indices_lookup points j :
  exterior_indices points !! j = Some true ->
  interior_indices0 points !! j = Some false /\
  interior_indices1 points !! j = Some false.
Proof.
  rewrite exterior_indices_map.
  unfold interior_indices0, interior_indices1.
  revert j. induction points as [|p points IH]; intros [|j] Hj;
    try discriminate.
  - cbn in *. injection Hj as Hj. apply andb_true_iff in Hj as [H0 H1].
    apply negb_true_iff in H0, H1. now rewrite H0, H1.
  - cbn in *. now apply IH.
Qed.

Lemma point_sets_cover_grid_aux (points : Points) :
  ext_points points
    = Done (List.filter (fun p => negb (inside0 p) && negb (inside1 p))
              points) /\
  int_points0 points = Done (List.filter inside0 points) /\
  int_points1 points = Done (List.filter inside1 points).
Proof.
  unfold ext_points, int_points0, int_points1, mask_select.
  rewrite exterior_indices_length.
  unfold interior_indices0, interior_indices1.
  rewrite !length_map, Nat.eqb_refl.
  rewrite exterior_indices_map, !select_map_filter.
  repeat split.
Qed.

(** X6: the three point sets handed to the factories.  The selections
    never raise; the exterior points are the grid points outside both
    spheres, the interior points of a sphere those inside it, in grid
    order; and no grid point is lost: together the three sets have as many
    points as the grid, plus the points lying inside both spheres. *)
Theorem point_sets_cover_grid (points : Points) :
  let outside := fun p => negb (inside0 p) && negb (inside1 p) in
  ext_points points = Done (List.filter outside points) /\
  int_points0 points = Done (List.filter inside0 points) /\
  int_points1 points = Done (List.filter inside1 points) /\
  length (List.filter outside points)
    + length (List.filter inside0 points)
    + length (List.filter inside1 points)
  = length points
    + length (List.filter (fun p => inside0 p && inside1 p) points).
Proof.
  cbn zeta. unfold ext_points, int_points0, int_points1, mask_select.
  rewrite exterior_indices_length.
  unfold interior_indices0, interior_indices1.
  rewrite !length_map, Nat.eqb_refl.
  rewrite exterior_indices_map, !select_map_filter.
  repeat split.
  induction points as [|p points IH]; [reflexivity|].
  cbn. destruct (inside0 p), (inside1 p); cbn; lia.
Qed.

(** ** The scattered field *)

Lemma count_true_negb mask :
  count_true (map negb mask) = length mask - count_true mask.
Proof.
  induction mask as [|m mask IH]; [reflexivity|].
  assert (Hle : count_true mask <= length mask).
  { clear IH. induction mask as [|b mask IH]; cbn; [lia|].
    destruct b; lia. }
  cbn. destruct m; cbn; rewrite IH; lia.
Qed.

Lemma select_constant {A B : Type} (c : B) (a : list A) mask :
  length mask = length a ->
  select (map (fun _ => c) a) mask = replicate (count_true mask) c.
Proof.
  revert mask. induction a as [|x a IH]; intros [|m mask] Hlen;
    try discriminate; [reflexivity|].
  injection Hlen as Hlen. cbn. destruct m; cbn; now rewrite IH.
Qed.

Lemma negb_mask_disjoint (mask : list bool) j :
  mask !! j = Some true -> map negb mask !! j = Some true -> False.
Proof.
  revert j. induction mask as [|m mask IH]; intros [|j]; try discriminate.
  - cbn. intros [= ->]. discriminate.
  - cbn. apply IH.
Qed.

(** X7: the scattered field on the grid.  Given one value for each
    exterior point, the array has one column for each grid point; read
    back through the exterior mask it gives exactly those values, in
    order, and every other column is NaN.  A number of values that is
    neither the number of exterior points nor one is a value error. *)
Theorem scattered_field_on_grid (points : Points) (exterior_values : list V) :
  (length exterior_values = count_true (exterior_indices points) ->
   exists s,
     scattered_field points exterior_values = Done s /\
     length s = length points /\
     select s (exterior_indices points) = map Some exterior_values /\
     select s (map negb (exterior_indices points))
       = replicate (length points - length exterior_values)
           (Some nan_column)) /\
  (length exterior_values <> count_true (exterior_indices points) ->
   length exterior_values <> 1 ->
   scattered_field points exterior_values = Raised ValueError).
Proof.
  split.
  - intros Hv. unfold scattered_field, np_empty. cbn zeta.
    set (blank := map (fun _ => Some nan_column) (replicate (length points) None)).
    assert (Hblank : length blank = length points).
    { unfold blank. now rewrite length_map, length_replicate. }
    assert (Hmask : length (exterior_indices points) = length blank).
    { now rewrite Hblank, exterior_indices_length. }
    rewrite mask_assign_exact by (rewrite ?length_map; assumption).
    eexists. split; [reflexivity|].
    split; [now rewrite scatter_length|].
    split; [apply select_scatter; rewrite ?length_map; assumption|].
    rewrite select_scatter_disjoint;
      [|assumption|now rewrite length_map|apply negb_mask_disjoint].
    unfold blank. rewrite select_constant.
    + rewrite count_true_negb, exterior_indices_length. now rewrite Hv.
    + now rewrite length_map, length_replicate, exterior_indices_length.
  - intros Hne H1. unfold scattered_field, np_empty, mask_assign. cbn zeta.
    rewrite length_map, length_replicate, exterior_indices_length,
      Nat.eqb_refl. cbn [negb].
    rewrite length_map.
    destruct (Nat.eqb_spec (length exterior_values)
                (count_true (exterior_indices points))) as [Heq|_];
      [contradiction|].
    destruct exterior_values as [|v [|v' vs]]; try reflexivity.
    now contradiction H1.
Qed.

(** ** The total field *)

Lemma In_select_seq mask k j :
  In j (select (seq k (length mask)) mask) <->
  k <= j /\ mask !! (j - k) = Some true.
Proof.
  revert k. induction mask as [|m mask IH]; intros k.
  - cbn. split; [contradiction|]. now intros [_ H].
  - cbn [length seq select].
    assert (Hrest : In j (select (seq (S k) (length mask)) mask) <->
                    k <= j /\ j <> k /\
                    (m :: mask) !! (j - k) = Some true).
    { rewrite IH. split.
      - intros [Hle Hj]. split; [lia|]. split; [lia|].
        replace (j - k) with (S (j - S k)) by lia. exact Hj.
      - intros (Hle & Hne & Hj). split; [lia|].
        replace (j - k) with (S (j - S k)) in Hj by lia. exact Hj. }
    destruct m.
    + cbn [In]. rewrite Hrest. split.
      * intros [<- | (Hle & _ & Hj)]; [|now split].
        split; [lia|]. now rewrite Nat.sub_diag.
      * intros [Hle Hj]. destruct (Nat.eq_dec k j) as [->|Hne];
          [now left|right]. repeat split; [assumption|lia|assumption].
    + rewrite Hrest. split.
      * intros (Hle & _ & Hj). now split.
      * intros [Hle Hj]. repeat split; [assumption| |assumption].
        intros ->. rewrite Nat.sub_diag in Hj. discriminate.
Qed.

(** The loop over the exterior indices: it raises nothing, and writes at
    each index it visits the sum of the scattered column and the incident
    wave at that grid point; the other cells are not touched. *)
Lemma add_incident_fold (scattered : list (option V)) (points : Points)
    inds (t : list (option V)) :
  length scattered = length t -> length points = length t ->
  Forall (fun i => i < length t) inds ->
  exists t',
    fold_left (add_incident scattered points) inds (Done t) = Done t' /\
    length t' = length t /\
    (forall j, In j inds ->
       t' !! j =
       zip_with (fun c p => option_map (fun v => vadd v (plane_wave p)) c)
         scattered points !! j) /\
    (forall j, ~ In j inds -> t' !! j = t !! j).
Proof.
  revert t. induction inds as [|i inds IH]; intros t Hs Hp Hall.
  - exists t. split; [reflexivity|]. split; [reflexivity|].
    split; [intros j []|reflexivity].
  - apply Forall_cons in Hall as [Hi Hall].
    destruct (lookup_lt_is_Some_2 scattered i) as [c Hc]; [lia|].
    destruct (lookup_lt_is_Some_2 points i) as [p Hp']; [lia|].
    set (new := option_map (fun v => vadd v (plane_wave p)) c).
    assert (Hstep : add_incident scattered points (Done t) i
                    = Done (<[i:=new]> t)).
    { unfold add_incident, Points in *. cbn [np_bind]. rewrite Hc, Hp'.
      destruct (Nat.ltb_spec i (length t)) as [_|Hge]; [reflexivity|lia]. }
    cbn [fold_left]. rewrite Hstep.
    destruct (IH (<[i:=new]> t)) as (t' & Hrun & Hlen & Hin & Hout).
    { now rewrite length_insert. }
    { now rewrite length_insert. }
    { now rewrite length_insert. }
    exists t'. split; [exact Hrun|].
    split; [now rewrite Hlen, length_insert|].
    split.
    + intros j Hj. destruct (in_dec Nat.eq_dec j inds) as [Hjin|Hjout].
      * now apply Hin.
      * destruct Hj as [<-|Hj]; [|contradiction].
        rewrite (Hout _ Hjout), list_lookup_insert_eq by assumption.
        rewrite lookup_zip_with, Hc, Hp'. reflexivity.
    + intros j Hj. rewrite Hout by (intros Hjin; apply Hj; now right).
      apply list_lookup_insert_ne. intros ->. apply Hj. now left.
Qed.

Lemma lookup_map {A B : Type} (f : A -> B) (l : list A) j :
  map f l !! j = option_map f (l !! j).
Proof.
  revert j. induction l as [|x l IH]; intros [|j]; try reflexivity.
  cbn. apply IH.
Qed.

Lemma zip_with_map_l {A B C D : Type} (f : B -> C -> D) (g : A -> B)
    (l : list A) (k : list C) :
  zip_with f (map g l) k = zip_with (fun x y => f (g x) y) l k.
Proof.
  revert k. induction l as [|x l IH]; intros [|y k]; try reflexivity.
  cbn. now rewrite IH.
Qed.

Lemma masks_at_point (points : Points) j p :
  points !! j = Some p ->
  interior_indices0 points !! j = Some (inside0 p) /\
  interior_indices1 points !! j = Some (inside1 p) /\
  exterior_indices points !! j
    = Some (negb (inside0 p) && negb (inside1 p)).
Proof.
  intros Hp. rewrite exterior_indices_map.
  unfold interior_indices0, interior_indices1, Points in *.
  rewrite !lookup_map, Hp. repeat split.
Qed.

(** What the script computes when the values have the shapes of the point
    sets: the scattered field, the array the loop leaves, and the two
    assignments of interior values on top of it. *)
Lemma total_field_run (points : Points)
    (exterior_values interior_values0 interior_values1 : list V) :
  length exterior_values = count_true (exterior_indices points) ->
  length interior_values0 = count_true (interior_indices0 points) ->
  length interior_values1 = count_true (interior_indices1 points) ->
  exists s t1,
    length s = length points /\
    select s (exterior_indices points) = map Some exterior_values /\
    (forall j c, s !! j = Some c -> is_Some c) /\
    length t1 = length points /\
    (forall j, exterior_indices points !! j = Some true ->
       t1 !! j =
       zip_with (fun c p => option_map (fun v => vadd v (plane_wave p)) c)
         s points !! j) /\
    total_field points exterior_values interior_values0 interior_values1
    = Done
        (scatter
           (scatter t1 (interior_indices0 points) (map Some interior_values0))
           (interior_indices1 points) (map Some interior_values1)).
Proof.
  intros Hv H0 H1.
  set (blank := map (fun _ : option V => Some nan_column)
                  (np_empty (length points))).
  assert (Hblank : length blank = length points).
  { unfold blank, np_empty. now rewrite length_map, length_replicate. }
  set (s := scatter blank (exterior_indices points) (map Some exterior_values)).
  assert (Hs : scattered_field points exterior_values = Done s).
  { unfold scattered_field. cbn zeta. fold blank.
    apply mask_assign_exact.
    - now rewrite Hblank, exterior_indices_length.
    - now rewrite length_map. }
  assert (Hslen : length s = length points).
  { unfold s. now rewrite scatter_length. }
  assert (Hinds : mask_select (seq 0 (length points)) (exterior_indices points)
                  = Done (select (seq 0 (length points))
                            (exterior_indices points))).
  { unfold mask_select.
    now rewrite exterior_indices_length, length_seq, Nat.eqb_refl. }
  destruct (add_incident_fold s points
              (select (seq 0 (length points)) (exterior_indices points))
              (np_empty (length points)))
    as (t1 & Hloop & Hlen1 & Hin & _).
  { unfold np_empty. now rewrite length_replicate. }
  { unfold np_empty. now rewrite length_replicate. }
  { apply Forall_forall. intros j Hj. apply list_elem_of_In in Hj.
    rewrite <- (exterior_indices_length points) in Hj at 1.
    apply In_select_seq in Hj as [_ Hj]. rewrite Nat.sub_0_r in Hj.
    apply lookup_lt_Some in Hj.
    unfold np_empty. rewrite length_replicate.
    now rewrite exterior_indices_length in Hj. }
  unfold np_empty in Hlen1. rewrite length_replicate in Hlen1.
  exists s, t1.
  split; [exact Hslen|]. split.
  { unfold s. apply select_scatter.
    - now rewrite Hblank, exterior_indices_length.
    - now rewrite length_map. }
  split.
  { intros j c Hc. unfold s in Hc. rewrite scatter_lookup in Hc;
      [|now rewrite Hblank, exterior_indices_length|now rewrite length_map].
    destruct (exterior_indices points !! j) as [[|]|].
    - rewrite lookup_map in Hc.
      destruct (exterior_values !! _); [|discriminate].
      injection Hc as <-. now eexists.
    - unfold blank in Hc. rewrite lookup_map in Hc.
      destruct (np_empty _ !! j); [|discriminate].
      injection Hc as <-. now eexists.
    - unfold blank in Hc. rewrite lookup_map in Hc.
      destruct (np_empty _ !! j); [|discriminate].
      injection Hc as <-. now eexists. }
  split; [exact Hlen1|]. split.
  { intros j Hj. apply Hin.
    rewrite <- (exterior_indices_length points) at 1.
    apply In_select_seq. split; [lia|]. now rewrite Nat.sub_0_r. }
  unfold total_field. rewrite Hs. cbn [np_bind]. rewrite Hinds. cbn [np_bind].
  rewrite Hloop. cbn [np_bind].
  rewrite mask_assign_exact;
    [|unfold interior_indices0; now rewrite length_map, Hlen1
     |now rewrite length_map].
  cbn [np_bind].
  apply mask_assign_exact.
  - unfold interior_indices1. now rewrite length_map, scatter_length, Hlen1.
  - now rewrite length_map.
Qed.

(** X8: the total field when the values have the shapes of the point sets.
    Nothing raises; the array has one column for each grid point and no
    column is left uninitialised.  Read through the exterior mask it is,
    entry by entry, the exterior value plus the incident wave at the
    exterior point of the same rank; read through the mask of the second
    sphere it is the interior values of that sphere. *)
Theorem total_field_on_grid (points : Points)
    (exterior_values interior_values0 interior_values1 : list V) :
  length exterior_values = count_true (exterior_indices points) ->
  length interior_values0 = count_true (interior_indices0 points) ->
  length interior_values1 = count_true (interior_indices1 points) ->
  exists t,
    total_field points exterior_values interior_values0 interior_values1
      = Done t /\
    length t = length points /\
    Forall (fun c => is_Some c) t /\
    select t (exterior_indices points)
      = zip_with (fun v p => Some (vadd v (plane_wave p))) exterior_values
          (select points (exterior_indices points)) /\
    select t (interior_indices1 points) = map Some interior_values1.
Proof.
  intros Hv H0 H1.
  destruct (total_field_run points exterior_values interior_values0
              interior_values1 Hv H0 H1)
    as (s & t1 & Hslen & Hsel & Hsome & Hlen1 & Hcell & Hrun).
  assert (Hl0 : length (interior_indices0 points) = length t1).
  { unfold interior_indices0. now rewrite length_map. }
  assert (Hl1 : length (interior_indices1 points) = length t1).
  { unfold interior_indices1. now rewrite length_map. }
  eexists. split; [exact Hrun|].
  split; [now rewrite !scatter_length|].
  split; [|split].
  - apply Forall_lookup. intros j c Hc.
    assert (Hj : j < length points).
    { apply lookup_lt_Some in Hc. now rewrite !scatter_length, Hlen1 in Hc. }
    destruct (lookup_lt_is_Some_2 points j Hj) as [p Hp].
    destruct (masks_at_point points j p Hp) as (Hm0 & Hm1 & Hme).
    rewrite scatter_lookup in Hc;
      [|now rewrite scatter_length|now rewrite length_map].
    rewrite Hm1 in Hc. destruct (inside1 p).
    { rewrite lookup_map in Hc. destruct (interior_values1 !! _);
        [|discriminate]. injection Hc as <-. now eexists. }
    assert (Hc' : scatter t1 (interior_indices0 points)
                    (map Some interior_values0) !! j = Some c).
    { exact Hc. }
    clear Hc. rewrite scatter_lookup in Hc';
      [|assumption|now rewrite length_map].
    rewrite Hm0 in Hc'. destruct (inside0 p).
    { rewrite lookup_map in Hc'. destruct (interior_values0 !! _);
        [|discriminate]. injection Hc' as <-. now eexists. }
    cbn in Hme. rewrite (Hcell j Hme), lookup_zip_with in Hc'.
    unfold Points in *. rewrite Hp in Hc'.
    destruct (s !! j) as [c'|] eqn:Hsj; [|discriminate].
    cbn in Hc'. injection Hc' as <-.
    destruct (Hsome j c' Hsj) as [v ->]. now eexists.
  - rewrite select_scatter_disjoint;
      [|now rewrite scatter_length
       |now rewrite scatter_length, exterior_indices_length, Hlen1
       |intros j Hj1 Hje; apply exterior_indices_lookup in Hje as [_ Hje];
        rewrite Hj1 in Hje; discriminate].
    rewrite select_scatter_disjoint;
      [|assumption|now rewrite exterior_indices_length, Hlen1
       |intros j Hj0 Hje; apply exterior_indices_lookup in Hje as [Hje _];
        rewrite Hj0 in Hje; discriminate].
    rewrite (select_pointwise t1
               (zip_with
                  (fun c p => option_map (fun v => vadd v (plane_wave p)) c)
                  s points));
      [|now rewrite exterior_indices_length
       |now rewrite length_zip_with, Hslen, Nat.min_id,
          exterior_indices_length
       |exact Hcell].
    rewrite select_zip_with, Hsel. apply zip_with_map_l.
  - apply select_scatter; [now rewrite scatter_length|now rewrite length_map].
Qed.

(** X9: when no grid point lies inside both spheres, the total field read
    through the mask of the first sphere is the interior values of that
    sphere: the later assignment for the second sphere overwrites none of
    them. *)
Theorem total_field_first_sphere (points : Points)
    (exterior_values interior_values0 interior_values1 : list V) :
  length exterior_values = count_true (exterior_indices points) ->
  length interior_values0 = count_true (interior_indices0 points) ->
  length interior_values1 = count_true (interior_indices1 points) ->
  (forall p, In p points -> inside0 p && inside1 p = false) ->
  exists t,
    total_field points exterior_values interior_values0 interior_values1
      = Done t /\
    select t (interior_indices0 points) = map Some interior_values0.
Proof.
  intros Hv H0 H1 Hdis.
  destruct (total_field_run points exterior_values interior_values0
              interior_values1 Hv H0 H1)
    as (s & t1 & _ & _ & _ & Hlen1 & _ & Hrun).
  assert (Hl0 : length (interior_indices0 points) = length t1).
  { unfold interior_indices0. now rewrite length_map. }
  assert (Hl1 : length (interior_indices1 points) = length t1).
  { unfold interior_indices1. now rewrite length_map. }
  eexists. split; [exact Hrun|].
  rewrite select_scatter_disjoint;
    [|now rewrite scatter_length|now rewrite scatter_length|].
  - apply select_scatter; [assumption|now rewrite length_map].
  - intros j Hj1 Hj0.
    assert (Hj : j < length points).
    { apply lookup_lt_Some in Hj0. now rewrite Hl0, Hlen1 in Hj0. }
    destruct (lookup_lt_is_Some_2 points j Hj) as [p Hp].
    destruct (masks_at_point points j p Hp) as (Hm0 & Hm1 & _).
    rewrite Hm0 in Hj0. rewrite Hm1 in Hj1.
    injection Hj0 as Hj0. injection Hj1 as Hj1.
    specialize (Hdis p). rewrite Hj0, Hj1 in Hdis.
    assert (Hin : In p points).
    { apply list_elem_of_In. now apply (list_elem_of_lookup_2 _ j). }
    specialize (Hdis Hin). discriminate.
Qed.

(** ** The grid and the image *)

Lemma ravel_rows (h : F -> F -> F -> F) (xs ys : list F) (z0 : F) :
  flat_map (fun x => flat_map (fun y => map (fun z => h x y z) [z0]) ys) xs
  = flat_map (fun x => map (fun y => h x y z0) ys) xs.
Proof.
  induction xs as [|x xs IH]; [reflexivity|].
  cbn [flat_map]. rewrite IH. now f_equal.
Qed.

Lemma ravel_x (xs ys : list F) (z0 : F) :
  x_ravel xs ys [z0] = flat_map (fun x => map (fun _ => x) ys) xs.
Proof. exact (ravel_rows (fun x _ _ => x) xs ys z0). Qed.

Lemma ravel_y (xs ys : list F) (z0 : F) :
  y_ravel xs ys [z0] = flat_map (fun _ => map (fun y => y) ys) xs.
Proof. exact (ravel_rows (fun _ y _ => y) xs ys z0). Qed.

Lemma ravel_z (xs ys : list F) (z0 : F) :
  z_ravel xs ys [z0] = flat_map (fun _ => map (fun _ => z0) ys) xs.
Proof. exact (ravel_rows (fun _ _ z => z) xs ys z0). Qed.

Lemma length_flat_map_rows {A B : Type} (f : A -> list B) (n : nat)
    (l : list A) :
  (forall a, length (f a) = n) -> length (flat_map f l) = length l * n.
Proof.
  intros Hn. induction l as [|a l IH]; [reflexivity|].
  cbn [flat_map length]. rewrite length_app, Hn, IH. lia.
Qed.

Lemma grid_points_columns (xs ys : list F) (z0 : F) :
  grid_points xs ys z0
  = Done (flat_map (fun x => map (fun y => [x; y; z0]) ys) xs).
Proof.
  unfold grid_points, vstack3. rewrite ravel_x, ravel_y, ravel_z.
  rewrite !(length_flat_map_rows _ (length ys))
    by (intros a; apply length_map).
  rewrite Nat.eqb_refl. cbn [andb]. f_equal.
  induction xs as [|x xs IH]; [reflexivity|].
  cbn [flat_map].
  rewrite !zip_with_app.
  - rewrite IH. f_equal.
    clear. induction ys as [|y ys IH]; [reflexivity|].
    cbn. now rewrite IH.
  - now rewrite length_zip_with, !length_map, Nat.min_id.
  - now rewrite !length_map.
Qed.

Lemma lookup_flat_map_rows {A B : Type} (f : A -> list B) (n : nat)
    (l : list A) i j x :
  (forall a, length (f a) = n) -> l !! i = Some x -> j < n ->
  flat_map f l !! (i * n + j) = f x !! j.
Proof.
  intros Hn. revert i. induction l as [|a l IH]; intros [|i] Hx Hj;
    try discriminate.
  - cbn in Hx. injection Hx as ->. cbn [flat_map].
    rewrite lookup_app_l by (rewrite Hn; lia). reflexivity.
  - cbn in Hx. cbn [flat_map].
    rewrite lookup_app_r by (rewrite Hn; lia).
    rewrite Hn. replace (S i * n + j - n) with (i * n + j) by lia.
    now apply IH.
Qed.

Lemma chunks_lookup {A : Type} (rows cols : nat) (flat : list A) i :
  i < rows ->
  chunks rows cols flat !! i = Some (take cols (drop (i * cols) flat)).
Proof.
  revert flat i. induction rows as [|rows IH]; intros flat i Hi; [lia|].
  destruct i as [|i]; [reflexivity|].
  cbn [chunks]. cbn [lookup list_lookup].
  change (chunks rows cols (drop cols flat) !! i
          = Some (take cols (drop (S i * cols) flat))).
  rewrite IH by lia. rewrite drop_drop.
  now replace (cols + i * cols) with (S i * cols) by lia.
Qed.

Lemma chunks_rows {A : Type} (rows cols : nat) (flat : list A) :
  length flat = rows * cols ->
  Forall (fun row => length row = cols) (chunks rows cols flat).
Proof.
  revert flat. induction rows as [|rows IH]; intros flat Hlen;
    [constructor|].
  cbn [chunks]. constructor.
  - rewrite length_take. lia.
  - apply IH. rewrite length_drop. lia.
Qed.

Lemma transpose_length {A : Type} (cols : nat) (m : list (list A)) :
  Forall (fun row => length row = cols) m ->
  length (transpose cols m) = cols.
Proof.
  induction 1 as [|row m Hrow _ IH]; cbn [transpose].
  - apply length_replicate.
  - rewrite length_zip_with, Hrow, IH. apply Nat.min_id.
Qed.

(** Entry (j, i) of the transposed image is entry (i, j) of the image. *)
Lemma transpose_lookup {A : Type} (cols : nat) (m : list (list A)) i j :
  Forall (fun row => length row = cols) m -> j < cols ->
  exists col,
    transpose cols m !! j = Some col /\
    col !! i = match m !! i with Some row => row !! j | None => None end.
Proof.
  intros Hm Hj. revert i. induction Hm as [|row m Hrow Hm IH]; intros i.
  - exists []. cbn [transpose]. split.
    + now apply lookup_replicate_2.
    + now destruct i.
  - destruct (lookup_lt_is_Some_2 row j) as [r Hr]; [lia|].
    destruct (IH 0) as (col & Hcol & _).
    exists (r :: col). cbn [transpose]. split.
    + rewrite lookup_zip_with, Hr, Hcol. reflexivity.
    + destruct i as [|i]; [now cbn|].
      destruct (IH i) as (col' & Hcol' & Hi).
      rewrite Hcol in Hcol'. injection Hcol' as <-. exact Hi.
Qed.

(** X10: the image shows the grid the right way round.  The grid has one
    column for each pair of an x and a y value, that of the values number
    ix and iy being column [ix * ny + iy], the point (x, y, z0); and the
    transposed image of a quantity computed column by column holds at row
    iy, column ix, the entry of that very column. *)
Theorem image_pixel_is_grid_point {A : Type} (xs ys : list F) (z0 : F)
    (squared : list A) ix iy x y :
  length squared = length xs * length ys ->
  xs !! ix = Some x -> ys !! iy = Some y ->
  exists points img row,
    grid_points xs ys z0 = Done points /\
    length points = length xs * length ys /\
    points !! (ix * length ys + iy) = Some [x; y; z0] /\
    image squared (length xs) (length ys) = Done img /\
    length img = length ys /\
    img !! iy = Some row /\
    row !! ix = squared !! (ix * length ys + iy).
Proof.
  intros Hlen Hx Hy.
  pose proof (lookup_lt_Some _ _ _ Hx) as Hix.
  pose proof (lookup_lt_Some _ _ _ Hy) as Hiy.
  pose proof (chunks_rows (length xs) (length ys) squared Hlen) as Hrows.
  destruct (transpose_lookup (length ys)
              (chunks (length xs) (length ys) squared) ix iy Hrows Hiy)
    as (row & Hrow & Hcell).
  eexists _, _, row.
  split; [apply grid_points_columns|].
  split.
  { apply length_flat_map_rows. intros a. apply length_map. }
  split.
  { pose proof (lookup_flat_map_rows
                  (fun x => map (fun y => [x; y; z0]) ys) (length ys) xs
                  ix iy x (fun a => length_map _ _) Hx Hiy) as Hcol.
    cbn beta in Hcol. rewrite lookup_map, Hy in Hcol. exact Hcol. }
  unfold image, reshape. rewrite Hlen, Nat.eqb_refl. cbn [np_bind].
  split; [reflexivity|].
  split; [now apply transpose_length|].
  split; [exact Hrow|].
  rewrite Hcell, chunks_lookup by assumption.
  rewrite lookup_take_lt by assumption. now rewrite lookup_drop.
Qed.

(** X11: the point sets of the script have the shape the factories are
    given.  The grid is built without an error, and all its columns have
    three entries; the exterior and the two interior point sets are
    selected from it without an error, and all their columns have three
    entries too. *)
Theorem script_points_are_3vectors (xs ys : list F) (z0 : F) :
  exists points pe p0 p1,
    grid_points xs ys z0 = Done points /\
    ext_points points = Done pe /\
    int_points0 points = Done p0 /\
    int_points1 points = Done p1 /\
    Forall (fun p => length p = 3) points /\
    Forall (fun p => length p = 3) pe /\
    Forall (fun p => length p = 3) p0 /\
    Forall (fun p => length p = 3) p1.
Proof.
  set (points := flat_map (fun x => map (fun y => [x; y; z0]) ys) xs).
  assert (H3 : Forall (fun p : list F => length p = 3) points).
  { apply Forall_forall. intros p Hp. apply list_elem_of_In in Hp.
    unfold points in Hp. apply in_flat_map in Hp as (x & _ & Hp).
    apply in_map_iff in Hp as (y & <- & _). reflexivity. }
  assert (Hsel : forall f, Forall (fun p : list F => length p = 3)
                             (List.filter f points)).
  { intros f. apply Forall_forall. intros p Hp.
    apply list_elem_of_In, filter_In in Hp as [Hp _].
    rewrite Forall_forall in H3. apply H3. now apply list_elem_of_In. }
  destruct (point_sets_cover_grid_aux points) as (He & H0 & H1).
  eexists points, _, _, _.
  split; [apply grid_points_columns|].
  split; [exact He|]. split; [exact H0|]. split; [exact H1|].
  split; [exact H3|].
  repeat split; apply Hsel.
Qed.

End Maxwell.

(** * Concrete runs

    Scalars are integers here, spaces, devices, parameters and kernels are
    numbers, and ["fmm"] is the one backend registered besides ["dense"]. *)

Example electric_field_complex_run :
  electric_field 0 ["fmm"] 7%nat [[1; 2; 3]] (PyComplex 5 6)
    (@no_keywords nat nat) (@empty_world Z nat nat nat nat)
  = (Ok 0%nat,
     mkWorld
       [mkOperatorDescriptor "maxwell_electric_field_potential"
          [PyFloat 5; PyFloat 6] "helmholtz_single_layer"
          "maxwell_electric_field" None true None 3]
       [mkPotentialAssembler 7%nat [[1; 2; 3]] 0%nat None "dense" None
          Unassembled]
       [mkPotentialOperator 0%nat]).
Proof. reflexivity. Qed.

Example magnetic_field_real_run :
  magnetic_field 0 ["fmm"] 7%nat [[1; 2; 3]; [4; 5; 6]] (PyFloat 5)
    (mkKeywords (Some (Some 4%nat)) (Some "fmm") (@None (option nat))
       (Some (Some double)))
    (@empty_world Z nat nat nat nat)
  = (Ok 0%nat,
     mkWorld
       [mkOperatorDescriptor "maxwell_magnetic_field_potential"
          [PyFloat 5; PyFloat 0] "helmholtz_single_layer"
          "maxwell_magnetic_field" (Some double) true None 3]
       [mkPotentialAssembler 7%nat [[1; 2; 3]; [4; 5; 6]] 0%nat None "fmm"
          (Some 4%nat) Unassembled]
       [mkPotentialOperator 0%nat]).
Proof. reflexivity. Qed.

(** An application assembles and caches in the assembler; the descriptor
    is as constructed. *)
Example apply_caches_in_assembler :
  exec_all 0 ["fmm"] (fun _ : nat => 2%nat)
    (fun _ _ _ _ _ _ => Ok 42%nat) (fun _ c => [c]) Nat.eqb
    [CallElectricField 7%nat [[1; 2; 3]] (PyComplex 5 6) no_keywords;
     CallOperatorApply 0%nat (mkGridFunction 7%nat [PyInt 1; PyInt 2])]
    (@empty_world Z nat (option nat) nat nat)
  = mkWorld
      [mkOperatorDescriptor "maxwell_electric_field_potential"
         [PyFloat 5; PyFloat 6] "helmholtz_single_layer"
         "maxwell_electric_field" None true None 3]
      [mkPotentialAssembler 7%nat [[1; 2; 3]] 0%nat None "dense" None
         (Assembled 42%nat)]
      [mkPotentialOperator 0%nat].
Proof. reflexivity. Qed.

(** Witness of C2: the dense backend on one 3-vector succeeds; a backend
    that is not registered, and a 2-vector, are refused. *)
Lemma factory_invalid_configuration_witness :
  outcome
    (electric_field 0 ["fmm"] 7%nat [[1; 2; 3]] (PyComplex 5 6)
       (@no_keywords nat nat))
    (@empty_world Z nat nat nat nat) = Ok 0%nat /\
  outcome
    (magnetic_field 0 ["fmm"] 7%nat [[1; 2; 3]] (PyComplex 5 6)
       (mkKeywords (@None (option nat)) (Some "hmat") (@None (option nat))
          None))
    (@empty_world Z nat nat nat nat) = Err InvalidConfiguration /\
  outcome
    (electric_field 0 ["fmm"] 7%nat [[1; 2]] (PyComplex 5 6)
       (@no_keywords nat nat))
    (@empty_world Z nat nat nat nat) = Err InvalidConfiguration.
Proof.
  split; [|split].
  - apply (factory_invalid_configuration 0 ["fmm"] 7%nat [[1; 2; 3]]
             (PyComplex 5 6) (@no_keywords nat nat)
             (@empty_world Z nat nat nat nat)).
    + left. reflexivity.
    + discriminate.
    + repeat constructor.
  - apply (factory_invalid_configuration 0 ["fmm"] 7%nat [[1; 2; 3]]
             (PyComplex 5 6)
             (mkKeywords (@None (option nat)) (Some "hmat")
                (@None (option nat)) None)
             (@empty_world Z nat nat nat nat)).
    left. intros [H | [H | []]]; discriminate H.
  - apply (factory_invalid_configuration 0 ["fmm"] 7%nat [[1; 2]]
             (PyComplex 5 6) (@no_keywords nat nat)
             (@empty_world Z nat nat nat nat)).
    right. right. intros H. inversion H as [|? ? Hlen _]. discriminate Hlen.
Defined.

(** Witness of C8: precision left out in one call and passed as [None] in
    the other, with different spaces, points, parameters, backends and
    stores. *)
Lemma factory_descriptor_depends_on_wavenumber_precision_witness :
  built_descriptors
    (electric_field 0 ["fmm"] 7%nat [[1; 2; 3]] (PyComplex 5 6)
       (@no_keywords nat nat))
    (@empty_world Z nat nat nat nat)
  = built_descriptors
      (electric_field 0 ["fmm"] 8%nat [] (PyComplex 5 6)
         (mkKeywords (Some (Some 4%nat)) (Some "fmm") (Some (Some 1%nat))
            (Some None)))
      (@mkWorld Z nat nat nat nat [] [] [mkPotentialOperator 3%nat]).
Proof.
  apply (factory_descriptor_depends_on_wavenumber_precision 0 ["fmm"]
           (PyComplex 5 6) 7%nat [[1; 2; 3]] (@no_keywords nat nat)
           (@empty_world Z nat nat nat nat) 8%nat []
           (mkKeywords (Some (Some 4%nat)) (Some "fmm") (Some (Some 1%nat))
              (Some None))
           (@mkWorld Z nat nat nat nat [] [] [mkPotentialOperator 3%nat])).
  reflexivity.
Defined.

(** Witness of X3: a real wavenumber with the precision left out, and the
    same wavenumber as a complex number with precision [None]. *)
Lemma descriptor_records_parts_and_precision_witness :
  built_descriptors
    (electric_field 0 ["fmm"] 7%nat [[1; 2; 3]] (PyFloat 5)
       (@no_keywords nat nat))
    (@empty_world Z nat nat nat nat)
  = built_descriptors
      (electric_field 0 ["fmm"] 8%nat [] (PyComplex 5 0)
         (mkKeywords (@None (option nat)) None (@None (option nat))
            (Some None)))
      (@mkWorld Z nat nat nat nat [] [] [mkPotentialOperator 3%nat]).
Proof.
  destruct (descriptor_records_parts_and_precision 0 ["fmm"] 7%nat
              [[1; 2; 3]] (PyFloat 5) (@no_keywords nat nat)
              (@empty_world Z nat nat nat nat) 8%nat [] (PyComplex 5 0)
              (mkKeywords (@None (option nat)) None (@None (option nat))
                 (Some None))
              (@mkWorld Z nat nat nat nat [] [] [mkPotentialOperator 3%nat])
              5) as [[_ Hequal] _].
  apply Hequal. repeat split; reflexivity.
Defined.

(** Witness of X4: the first call from the empty store returns operator 0,
    the second operator 1. *)
Lemma factory_calls_build_fresh_objects_witness :
  outcome
    (electric_field 0 ["fmm"] 7%nat [[1; 2; 3]] (PyComplex 5 6)
       (@no_keywords nat nat))
    (after
       (electric_field 0 ["fmm"] 7%nat [[1; 2; 3]] (PyComplex 5 6)
          (@no_keywords nat nat))
       (@empty_world Z nat nat nat nat))
  = Ok 1%nat.
Proof.
  apply (factory_calls_build_fresh_objects 0 ["fmm"] 7%nat [[1; 2; 3]]
           (PyComplex 5 6) (@no_keywords nat nat)
           (@empty_world Z nat nat nat nat) 0%nat).
  reflexivity.
Defined.

(** Witness of X5: an assembler that has already assembled keeps its
    kernel through a later call of a factory. *)
Lemma factory_leaves_objects_untouched_witness :
  assemblers
    (after
       (magnetic_field 0 ["fmm"] 8%nat [[4; 5; 6]] (PyFloat 2)
          (@no_keywords nat nat))
       (@mkWorld Z nat nat nat nat []
          [mkPotentialAssembler 7%nat [[1; 2; 3]] 0%nat None "dense" None
             (Assembled 42%nat)]
          [mkPotentialOperator 0%nat]))
    !! 0%nat
  = Some
      (mkPotentialAssembler 7%nat [[1; 2; 3]] 0%nat None "dense" None
         (Assembled 42%nat)).
Proof.
  apply (factory_leaves_objects_untouched 0 ["fmm"] 8%nat [[4; 5; 6]]
           (PyFloat 2) (@no_keywords nat nat)
           (@mkWorld Z nat nat nat nat []
              [mkPotentialAssembler 7%nat [[1; 2; 3]] 0%nat None "dense" None
                 (Assembled 42%nat)]
              [mkPotentialOperator 0%nat])
           0%nat
           (mkPotentialAssembler 7%nat [[1; 2; 3]] 0%nat None "dense" None
              (Assembled 42%nat))
           0%nat (mkPotentialOperator 0%nat));
    reflexivity.
Defined.

(** Witness of X7: five grid points on a line, the first sphere at
    negative x, the second beyond x = 5; two points are exterior. *)
Lemma scattered_field_on_grid_witness :
  exists s,
    scattered_field (fun p => match p with x :: _ => x <? 0 | [] => false end)
      (fun p => match p with x :: _ => 5 <? x | [] => false end) (-99)
      [[-1; 0; 0]; [1; 0; 0]; [7; 0; 0]; [2; 0; 0]; [-3; 0; 0]] [100; 200]
    = Done s /\
    s = [Some (-99); Some 100; Some (-99); Some 200; Some (-99)].
Proof.
  destruct (scattered_field_on_grid
              (fun p => match p with x :: _ => x <? 0 | [] => false end)
              (fun p => match p with x :: _ => 5 <? x | [] => false end)
              (-99)
              [[-1; 0; 0]; [1; 0; 0]; [7; 0; 0]; [2; 0; 0]; [-3; 0; 0]]
              [100; 200]) as [Hexact _].
  destruct (Hexact eq_refl) as (s & Hs & _).
  exists s. split; [exact Hs|].
  vm_compute in Hs. now injection Hs as <-.
Defined.

(** Witness of X8: the same grid, with the incident wave at a point taken
    to be its x coordinate. *)
Lemma total_field_on_grid_witness :
  exists t,
    total_field (fun p => match p with x :: _ => x <? 0 | [] => false end)
      (fun p => match p with x :: _ => 5 <? x | [] => false end) (-99)
      Z.add (fun p => match p with x :: _ => x | [] => 0 end)
      [[-1; 0; 0]; [1; 0; 0]; [7; 0; 0]; [2; 0; 0]; [-3; 0; 0]]
      [100; 200] [10; 20] [30]
    = Done t /\
    t = [Some 10; Some 101; Some 30; Some 202; Some 20].
Proof.
  destruct (total_field_on_grid
              (fun p => match p with x :: _ => x <? 0 | [] => false end)
              (fun p => match p with x :: _ => 5 <? x | [] => false end)
              (-99) Z.add (fun p => match p with x :: _ => x | [] => 0 end)
              [[-1; 0; 0]; [1; 0; 0]; [7; 0; 0]; [2; 0; 0]; [-3; 0; 0]]
              [100; 200] [10; 20] [30] eq_refl eq_refl eq_refl)
    as (t & Ht & _).
  exists t. split; [exact Ht|].
  vm_compute in Ht. now injection Ht as <-.
Defined.

(** Witness of X9: on that grid no point is inside both spheres. *)
Lemma total_field_first_sphere_witness :
  exists t,
    total_field (fun p => match p with x :: _ => x <? 0 | [] => false end)
      (fun p => match p with x :: _ => 5 <? x | [] => false end) (-99)
      Z.add (fun p => match p with x :: _ => x | [] => 0 end)
      [[-1; 0; 0]; [1; 0; 0]; [7; 0; 0]; [2; 0; 0]; [-3; 0; 0]]
      [100; 200] [10; 20] [30]
    = Done t /\
    select t [true; false; false; false; true] = [Some 10; Some 20].
Proof.
  apply (total_field_first_sphere
           (fun p => match p with x :: _ => x <? 0 | [] => false end)
           (fun p => match p with x :: _ => 5 <? x | [] => false end)
           (-99) Z.add (fun p => match p with x :: _ => x | [] => 0 end)
           [[-1; 0; 0]; [1; 0; 0]; [7; 0; 0]; [2; 0; 0]; [-3; 0; 0]]
           [100; 200] [10; 20] [30] eq_refl eq_refl eq_refl).
  intros p [<- | [<- | [<- | [<- | [<- | []]]]]]; reflexivity.
Defined.

(** Witness of X10: a grid of three x values and two y values; the pixel
    at row 1, column 2 is entry 2 * 2 + 1 of the flat array, the value at
    the point (3, 20, 0). *)
Lemma image_pixel_is_grid_point_witness :
  exists points img row,
    grid_points [1; 2; 3] [10; 20] 0 = Done points /\
    length points = 6%nat /\
    points !! 5%nat = Some [3; 20; 0] /\
    image [11; 12; 21; 22; 31; 32] 3 2 = Done img /\
    length img = 2%nat /\
    img !! 1%nat = Some row /\
    row !! 2%nat = Some 32.
Proof.
  apply (image_pixel_is_grid_point [1; 2; 3] [10; 20] 0
           [11; 12; 21; 22; 31; 32] 2 1 3 20); reflexivity.
Defined.
